(** * Songbird [source.js]: the pose and directional math of a [Source]

    A shallow embedding of [src/source.js] (Songbird, Google 2016) and the
    properties of its setters.

    The program is plain JavaScript arithmetic on numbers.  It is embedded
    ONCE, generically over an interface [Number] of the JavaScript number
    operations it uses, and then read at two instances:

    - [Exact.RNumber]: numbers are real numbers, every operation is the
      mathematical one and nothing is rounded.  This is the reading in which
      the geometric statements (unit quaternion, gain bounds, scenario values)
      are made.
    - [Binary64.FloatNumber]: numbers are IEEE-754 binary64 values (Rocq's
      primitive floats), with NaN, infinities and signed zeros, and with the
      rounding to binary32 that a store into a [Float32Array] performs.
      [Math.sin], [Math.cos], [Math.atan2] and [Math.pow] return what
      ECMAScript prescribes where it prescribes a value, and the value of a
      library that is a parameter of the instance elsewhere.

    The audio graph (gain nodes, connections) is not modelled beyond the two
    [AudioParam] values the setters write; the calls made on the two
    collaborators ([Attenuation.setDistance], [AmbisonicEncoder.setDirection])
    are returned by each setter as a list, in program order. *)

From Stdlib Require Import Floats.
From Stdlib Require Import Reals Lra List Bool ZArith.
Import ListNotations.

Set Implicit Arguments.

(** ** JavaScript numbers, as far as [source.js] uses them *)

Declare Scope js_scope.
Delimit Scope js_scope with js.

Class Number (N : Type) : Type := {
  (** the literals [0], [1] (also written [1.0]) and [0.5] *)
  zero : N;
  one : N;
  half : N;
  (** [+], binary [-], [*], [/] and unary [-] *)
  add : N -> N -> N;
  sub : N -> N -> N;
  mul : N -> N -> N;
  div : N -> N -> N;
  neg : N -> N;
  (** the comparison [<] *)
  lt : N -> N -> bool;
  Math_sqrt : N -> N;
  Math_abs : N -> N;
  Math_sin : N -> N;
  Math_cos : N -> N;
  Math_atan2 : N -> N -> N;
  Math_pow : N -> N -> N;
  Math_min : N -> N -> N;
  Math_max : N -> N -> N;
  (** the conversion applied by a store into a [Float32Array] element *)
  Float32 : N -> N
}.

Notation "a + b" := (add a b) : js_scope.
Notation "a - b" := (sub a b) : js_scope.
Notation "a * b" := (mul a b) : js_scope.
Notation "a / b" := (div a b) : js_scope.
Notation "- a" := (neg a) : js_scope.
Notation "a <? b" := (lt a b) (at level 70, no associativity) : js_scope.

(** ** Data model *)

Section Model.

Context {N : Type} `{Number N}.

Local Open Scope js_scope.

(** An array of three numbers ([Float32Array(3)] or [[a, b, c]]); the field
    [e]_i_ is the element at index _i_. *)
Record Vec3 : Type := vec3 { e0 : N; e1 : N; e2 : N }.

(** An array of four numbers, a quaternion [[w, x, y, z]]. *)
Record Quat : Type := quat { q0 : N; q1 : N; q2 : N; q3 : N }.

(** [new Float32Array(3)] and [new Float32Array(4)] are zero-filled. *)
Definition Float32Array3 : Vec3 := vec3 zero zero zero.
Definition Float32Array4 : Quat := quat zero zero zero zero.

(** The constants of [globals.js] that [source.js] reads.  That file is not
    part of the sources at hand, so the constants are a parameter of the
    model. *)
Record Globals : Type := {
  EpsilonFloat : N;
  PiByOneEighty : N;
  OneEightyByPi : N;
  DefaultGainLinear : N;
  DefaultPosition : Vec3;
  DefaultVelocity : Vec3;
  DefaultOrientation : Vec3
}.

(** What a [Source] reads of its [Listener]. *)
Record Listener : Type := {
  Listener_position : Vec3;
  Listener_ambisonicOrder : N
}.

(** The [options] argument of the constructor; an absent property is [None].
    [minDistance] and [maxDistance] are only handed on to [Attenuation]. *)
Record Options : Type := {
  minDistance : option N;
  maxDistance : option N;
  gain : option N;
  position : option Vec3;
  velocity : option Vec3;
  orientation : option Vec3
}.

(** The state of a [Source].  [input_gain] is [this.input.gain.value] and
    [_directivity_gain] is [this._directivity.gain.value]. *)
Record Source : Type := {
  _listener : Listener;
  _position : Vec3;
  _velocity : Vec3;
  _orientation_q : Quat;
  _forward : Vec3;
  _directivity_alpha : N;
  _directivity_order : N;
  input_gain : N;
  _directivity_gain : N
}.

(** A call on one of the two collaborators. *)
Inductive Call : Type :=
| setDistance (distance : N)
| setDirection (azimuth elevation : N).

(** Field updates. *)
Definition with_position (p : Vec3) (s : Source) : Source :=
  {| _listener := _listener s; _position := p; _velocity := _velocity s;
     _orientation_q := _orientation_q s; _forward := _forward s;
     _directivity_alpha := _directivity_alpha s;
     _directivity_order := _directivity_order s;
     input_gain := input_gain s; _directivity_gain := _directivity_gain s |}.

Definition with_orientation (q : Quat) (f : Vec3) (s : Source) : Source :=
  {| _listener := _listener s; _position := _position s;
     _velocity := _velocity s;
     _orientation_q := q; _forward := f;
     _directivity_alpha := _directivity_alpha s;
     _directivity_order := _directivity_order s;
     input_gain := input_gain s; _directivity_gain := _directivity_gain s |}.

Definition with_directivity (alpha order : N) (s : Source) : Source :=
  {| _listener := _listener s; _position := _position s;
     _velocity := _velocity s;
     _orientation_q := _orientation_q s; _forward := _forward s;
     _directivity_alpha := alpha;
     _directivity_order := order;
     input_gain := input_gain s; _directivity_gain := _directivity_gain s |}.

Definition with_directivity_gain (g : N) (s : Source) : Source :=
  {| _listener := _listener s; _position := _position s;
     _velocity := _velocity s;
     _orientation_q := _orientation_q s; _forward := _forward s;
     _directivity_alpha := _directivity_alpha s;
     _directivity_order := _directivity_order s;
     input_gain := input_gain s; _directivity_gain := g |}.

(** The listener is an object of its own that the source only refers to: it
    moves without the source being told.  [with_listener l s] is [s] at a
    moment when its listener is in state [l]. *)
Definition with_listener (l : Listener) (s : Source) : Source :=
  {| _listener := l; _position := _position s;
     _velocity := _velocity s;
     _orientation_q := _orientation_q s; _forward := _forward s;
     _directivity_alpha := _directivity_alpha s;
     _directivity_order := _directivity_order s;
     input_gain := input_gain s; _directivity_gain := _directivity_gain s |}.

Definition with_input_gain (g : N) (s : Source) : Source :=
  {| _listener := _listener s; _position := _position s;
     _velocity := _velocity s;
     _orientation_q := _orientation_q s; _forward := _forward s;
     _directivity_alpha := _directivity_alpha s;
     _directivity_order := _directivity_order s;
     input_gain := g; _directivity_gain := _directivity_gain s |}.

(** ** The functions of [source.js] *)

Variable G : Globals.

(** [toQuaternion] (lines 219-232). *)
Definition toQuaternion (roll pitch yaw : N) : Quat :=
  let t0 := Math_cos (yaw * half) in
  let t1 := Math_sin (yaw * half) in
  let t2 := Math_cos (roll * half) in
  let t3 := Math_sin (roll * half) in
  let t4 := Math_cos (pitch * half) in
  let t5 := Math_sin (pitch * half) in
  quat (t0 * t2 * t4 + t1 * t3 * t5)
       (t0 * t3 * t4 - t1 * t2 * t5)
       (t0 * t2 * t5 + t1 * t3 * t4)
       (t1 * t2 * t4 - t0 * t3 * t5).

(** [hamiltonProduct] (lines 235-242). *)
Definition hamiltonProduct (a b : Quat) : Quat :=
  quat (q0 a * q0 b - q1 a * q1 b - q2 a * q2 b - q3 a * q3 b)
       (q0 a * q1 b + q1 a * q0 b + q2 a * q3 b - q3 a * q2 b)
       (q0 a * q2 b - q1 a * q3 b + q2 a * q0 b + q3 a * q1 b)
       (q0 a * q3 b + q1 a * q2 b - q2 a * q1 b + q3 a * q0 b).

(** [computeDirectivity] (lines 244-255). *)
Definition computeDirectivity
    (forward direction_to_listener : Vec3) (alpha order : N) : N :=
  if alpha <? EpsilonFloat G then one
  else
    let cosTheta := e0 forward * e0 direction_to_listener +
                    e1 forward * e1 direction_to_listener +
                    e2 forward * e2 direction_to_listener in
    let gain := (one - alpha) + alpha * cosTheta in
    Math_pow (Math_abs gain) order.

(** Lines 115-124 of [setPosition]: the difference [dx] of the source and
    listener positions, held in a [Float32Array], its length [distance], and
    [dx] divided by it in place.  The block has no name in the source; it is
    named apart here so that statements can speak of the direction vector. *)
Definition computeDirectionAndDistance (position listener_position : Vec3)
    : N * Vec3 :=
  let dx := vec3 (Float32 (e0 position - e0 listener_position))
                 (Float32 (e1 position - e1 listener_position))
                 (Float32 (e2 position - e2 listener_position)) in
  let distance := Math_sqrt (e0 dx * e0 dx + e1 dx * e1 dx + e2 dx * e2 dx) in
  (distance,
   vec3 (Float32 (e0 dx / distance))
        (Float32 (e1 dx / distance))
        (Float32 (e2 dx / distance))).

(** Lines 131-133 of [setPosition]: the angles of the direction vector. *)
Definition computeAzimuthElevation (dx : Vec3) : N * N :=
  let azimuth := Math_atan2 (- e0 dx) (e2 dx) * OneEightyByPi G in
  let elevation :=
    Math_atan2 (e1 dx) (Math_sqrt (e0 dx * e0 dx + e2 dx * e2 dx))
    * OneEightyByPi G in
  (azimuth, elevation).

(** [Source.prototype.setPosition] (lines 107-138). *)
Definition setPosition (x y z : N) (s : Source) : Source * list Call :=
  let position := vec3 (Float32 x) (Float32 y) (Float32 z) in
  let '(distance, dx) :=
    computeDirectionAndDistance position (Listener_position (_listener s)) in
  let directivity :=
    computeDirectivity (_forward s) dx
      (_directivity_alpha s) (_directivity_order s) in
  let '(azimuth, elevation) := computeAzimuthElevation dx in
  (with_directivity_gain directivity (with_position position s),
   [setDistance distance; setDirection azimuth elevation]).

(** [Source.prototype.setAngleFromListener] (lines 146-173); an argument that
    is [undefined] is [None]. *)
Definition setAngleFromListener
    (azimuth : N) (elevation distance : option N) (s : Source)
    : Source * list Call :=
  let elevation := match elevation with None => zero | Some e => e end in
  let distance := match distance with None => one | Some d => d end in
  let theta := azimuth * PiByOneEighty G in
  let phi := elevation * PiByOneEighty G in
  let x := - Math_sin theta * Math_cos phi in
  let y := Math_sin theta in
  let z := - Math_cos theta * Math_cos phi in
  let directivity :=
    computeDirectivity (_forward s) (vec3 x y z)
      (_directivity_alpha s) (_directivity_order s) in
  let lp := Listener_position (_listener s) in
  let position := vec3 (Float32 (e0 lp + x))
                       (Float32 (e1 lp + y))
                       (Float32 (e2 lp + z)) in
  (with_position position (with_directivity_gain directivity s),
   [setDistance distance; setDirection (- azimuth) elevation]).

(** [Source.prototype.setOrientation] (lines 181-190). *)
Definition setOrientation (roll pitch yaw : N) (s : Source)
    : Source * list Call :=
  let q := toQuaternion roll pitch yaw in
  let forward :=
    hamiltonProduct
      (hamiltonProduct q (quat zero zero zero one))
      (quat (q0 q) (- q1 q) (- q2 q) (- q3 q)) in
  (with_orientation q (vec3 (q1 forward) (q2 forward) (q3 forward)) s, []).

(** [Source.prototype.setVelocity] (lines 198-200): the body is empty. *)
Definition setVelocity (x y z : N) (s : Source) : Source * list Call :=
  (s, []).

(** [Source.prototype.setDirectivity] (lines 210-216). *)
Definition setDirectivity (alpha order : N) (s : Source)
    : Source * list Call :=
  (with_directivity (Math_min one (Math_max zero alpha))
                    (Math_min one order) s,
   []).

(** The constructor [Source] (lines 41-99).  A fresh gain node has gain 1. *)
Definition Source_new (listener : Listener) (options : option Options)
    : Source * list Call :=
  let options :=
    match options with
    | Some o => o
    | None => {| minDistance := None; maxDistance := None; gain := None;
                 position := None; velocity := None; orientation := None |}
    end in
  let o_gain :=
    match gain options with Some g => g | None => DefaultGainLinear G end in
  let o_position :=
    match position options with Some p => p | None => DefaultPosition G end in
  let o_velocity :=
    match velocity options with Some v => v | None => DefaultVelocity G end in
  let o_orientation :=
    match orientation options with
    | Some o => o | None => DefaultOrientation G end in
  let s0 :=
    {| _listener := listener;
       _position := Float32Array3;
       _velocity := Float32Array3;
       _orientation_q := Float32Array4;
       _forward := Float32Array3;
       _directivity_alpha := zero;
       _directivity_order := Listener_ambisonicOrder listener;
       input_gain := one;
       _directivity_gain := one |} in
  let '(s1, c1) :=
    setPosition (e0 o_position) (e1 o_position) (e2 o_position) s0 in
  let '(s2, c2) :=
    setVelocity (e0 o_velocity) (e1 o_velocity) (e2 o_velocity) s1 in
  let '(s3, c3) :=
    setOrientation (e0 o_orientation) (e1 o_orientation) (e2 o_orientation)
      s2 in
  (with_input_gain o_gain s3, c1 ++ c2 ++ c3).

(** The position that the constructor reads from its options after the
    defaults are assigned (lines 50-58): [options.position], or
    [Globals.DefaultPosition] when the options or the property are
    missing. *)
Definition option_position (options : option Options) : Vec3 :=
  match options with
  | Some {| position := Some p |} => p
  | _ => DefaultPosition G
  end.

End Model.

Arguments Vec3 N : clear implicits.
Arguments Quat N : clear implicits.
Arguments Globals N : clear implicits.
Arguments Listener N : clear implicits.
Arguments Options N : clear implicits.
Arguments Source N : clear implicits.
Arguments Call N : clear implicits.

Unset Implicit Arguments.

(** ** The exact reading: numbers are real numbers *)

Module Exact.

Local Open Scope R_scope.

(** [Math.atan2(y, x)]: the angle of the point [(x, y)], in (-PI, PI].  The
    two zeros of JavaScript are one number here, so the value on the negative
    x axis is [PI]. *)
Definition atan2 (y x : R) : R :=
  if Rlt_dec 0 x then atan (y / x)
  else if Rlt_dec x 0 then
    if Rle_dec 0 y then atan (y / x) + PI else atan (y / x) - PI
  else if Rlt_dec 0 y then PI / 2
  else if Rlt_dec y 0 then - (PI / 2)
  else 0.

(** [Math.pow(x, y)] for a base [x >= 0]: [pow(x, 0) = 1], [pow(0, y) = 0]
    for [y > 0], and [exp (y * ln x)] for [x > 0]. *)
Definition pow (x y : R) : R :=
  if Req_dec_T y 0 then 1
  else if Req_dec_T x 0 then 0
  else Rpower x y.

Definition ltb (a b : R) : bool := if Rlt_dec a b then true else false.

(** Real numbers as JavaScript numbers.  The reading is exact where the
    JavaScript result is a finite number and no rounding is counted: a
    divisor is not zero, [Math.sqrt] and the base of [Math.pow] get a
    non-negative argument, and a store into a [Float32Array] keeps the value.
    It has no NaN and no infinity; statements about those are made in
    [Binary64]. *)
#[export] Instance RNumber : Number R := {|
  zero := 0;
  one := 1;
  half := / 2;
  add := Rplus;
  sub := Rminus;
  mul := Rmult;
  div := Rdiv;
  neg := Ropp;
  lt := ltb;
  Math_sqrt := R_sqrt.sqrt;
  Math_abs := Rabs;
  Math_sin := sin;
  Math_cos := cos;
  Math_atan2 := atan2;
  Math_pow := pow;
  Math_min := Rmin;
  Math_max := Rmax;
  Float32 := fun x => x
|}.

(** Modelled from the spec: the constants of [globals.js], which is not
    among the sources, in the exact reading.  The spec says that azimuth and
    elevation are in degrees and [Math]'s angles in radians, which fixes the
    two conversion factors; it calls [EpsilonFloat] "a small epsilon
    threshold", taken here as [10^-6]; the default position, velocity and
    orientation are "a documented zero/identity value", and the default gain
    is 1.  The general statements below take the constants as a parameter
    [G]; this record is for the concrete scenarios. *)
Definition globals : Globals R := {|
  EpsilonFloat := / 1000000;
  PiByOneEighty := PI / 180;
  OneEightyByPi := 180 / PI;
  DefaultGainLinear := 1;
  DefaultPosition := vec3 0 0 0;
  DefaultVelocity := vec3 0 0 0;
  DefaultOrientation := vec3 0 0 0
|}.

(** A listener at the origin, of ambisonic order 1. *)
Definition listener_at_origin : Listener R :=
  {| Listener_position := vec3 0 0 0; Listener_ambisonicOrder := 1 |}.

(** The source that [new Source(listener)] makes for that listener, with no
    options.  Only the state is taken: the calls that the constructor makes
    on the way divide by a zero distance, and are a matter for [Binary64]. *)
Definition source0 : Source R :=
  fst (Source_new globals listener_at_origin None).

(** A source of the listener at the origin with the cardioid pattern
    (alpha 1/2, order 1), at the origin and facing +z. *)
Definition cardioid_source : Source R :=
  {| _listener := listener_at_origin;
     _position := vec3 0 0 0;
     _velocity := vec3 0 0 0;
     _orientation_q := quat 1 0 0 0;
     _forward := vec3 0 0 1;
     _directivity_alpha := / 2;
     _directivity_order := 1;
     input_gain := 1;
     _directivity_gain := 1 |}.

(** Squared Euclidean norms. *)
Definition norm2 (v : Vec3 R) : R := e0 v * e0 v + e1 v * e1 v + e2 v * e2 v.

Definition qnorm2 (q : Quat R) : R :=
  q0 q * q0 q + q1 q * q1 q + q2 q * q2 q + q3 q * q3 q.

Definition dot (u v : Vec3 R) : R := e0 u * e0 v + e1 u * e1 v + e2 u * e2 v.

(** The array [[q[0], -q[1], -q[2], -q[3]]] that [setOrientation] builds
    (lines 187-188). *)
Definition conjugate (q : Quat R) : Quat R :=
  quat (q0 q) (- q1 q) (- q2 q) (- q3 q).

End Exact.

(** ** The binary64 reading: numbers are IEEE-754 doubles *)

Module Binary64.

Local Open Scope float_scope.

(** The part of [Math] that ECMAScript leaves to the implementation ("an
    implementation-approximated value"). *)
Class MathLib : Type := {
  lib_sin : float -> float;
  lib_cos : float -> float;
  lib_atan2 : float -> float -> float;
  lib_pow : float -> float -> float
}.

Definition is_pos_zero (x : float) : bool :=
  match classify x with PZero => true | _ => false end.

Definition is_neg_zero (x : float) : bool :=
  match classify x with NZero => true | _ => false end.

(** [Math.min] and [Math.max]: NaN if an argument is NaN; [-0] is below
    [+0]. *)
Definition fmin (a b : float) : float :=
  if is_nan a || is_nan b then nan
  else if a <? b then a
  else if b <? a then b
  else if is_neg_zero a then a else b.

Definition fmax (a b : float) : float :=
  if is_nan a || is_nan b then nan
  else if b <? a then a
  else if a <? b then b
  else if is_neg_zero a then b else a.

(** The conversion of a store into a [Float32Array]: round to nearest, ties
    to even, in binary32 (24 bits of precision, [emax = 128]), the result
    being again a double. *)
Definition fround (x : float) : float :=
  match Prim2SF x with
  | S754_finite s m e =>
      match binary_round 24 128 s m e with
      | S754_finite s' m' e' => SF2Prim (binary_round prec emax s' m' e')
      | r => SF2Prim r
      end
  | _ => x
  end.

Section WithLibrary.

Context {M : MathLib}.

(** [Math.sin] as ECMA-262 defines it: NaN, [+0] and [-0] are returned as
    they are, an infinity gives NaN. *)
Definition fsin (x : float) : float :=
  if is_nan x then nan
  else if is_zero x then x
  else if is_infinity x then nan
  else lib_sin x.

(** [Math.cos]: NaN and the infinities give NaN, a zero gives 1. *)
Definition fcos (x : float) : float :=
  if is_nan x || is_infinity x then nan
  else if is_zero x then 1
  else lib_cos x.

(** [Math.atan2].  The cases that ECMA-262 gives an exact value are
    written out: NaN for a NaN argument, a zero of the sign of [y] when [y]
    is a zero and [x] is [+0] or positive, and when [y] is finite and [x]
    is [+Infinity].  The other cases return approximations of multiples of
    PI or of the arc tangent, and are the library's. *)
Definition fatan2 (y x : float) : float :=
  if is_nan y || is_nan x then nan
  else if is_pos_zero y && (is_pos_zero x || (0 <? x)) then 0
  else if is_neg_zero y && (is_pos_zero x || (0 <? x)) then -0
  else if is_finite y && (0 <? y) && (x =? infinity) then 0
  else if is_finite y && (y <? 0) && (x =? infinity) then -0
  else lib_atan2 y x.

(** [Math.pow] (ECMA-262's [Number::exponentiate]).  Written out for the
    bases that [source.js] can pass, which are absolute values: a NaN
    argument, a zero exponent, the bases [+Infinity] and [+0], and an
    infinite exponent.  A base that is [-Infinity], [-0] or negative, and the
    approximation of the general power, are the library's. *)
Definition fpow (base exponent : float) : float :=
  if is_nan exponent then nan
  else if is_zero exponent then 1
  else if is_nan base then nan
  else if base =? infinity then (if 0 <? exponent then infinity else 0)
  else if is_pos_zero base then (if 0 <? exponent then 0 else infinity)
  else if (base <? 0) || is_neg_zero base then lib_pow base exponent
  else if exponent =? infinity then
    (if 1 <? base then infinity else if base =? 1 then nan else 0)
  else if exponent =? neg_infinity then
    (if 1 <? base then 0 else if base =? 1 then nan else infinity)
  else lib_pow base exponent.

#[export] Instance FloatNumber : Number float := {|
  zero := 0;
  one := 1;
  half := 0.5;
  add := PrimFloat.add;
  sub := PrimFloat.sub;
  mul := PrimFloat.mul;
  div := PrimFloat.div;
  neg := PrimFloat.opp;
  lt := PrimFloat.ltb;
  Math_sqrt := PrimFloat.sqrt;
  Math_abs := PrimFloat.abs;
  Math_sin := fsin;
  Math_cos := fcos;
  Math_atan2 := fatan2;
  Math_pow := fpow;
  Math_min := fmin;
  Math_max := fmax;
  Float32 := fround
|}.

End WithLibrary.

(** Modelled from the spec: the constants of [globals.js], which is not
    among the sources, in the binary64 reading.  The two conversion factors
    are the doubles nearest to PI/180 and 180/PI, the threshold is the double
    nearest to [10^-6], and the defaults are zero vectors and gain 1. *)
#[warnings="-inexact-float"] Definition globals : Globals float := {|
  EpsilonFloat := 1e-6;
  PiByOneEighty := 0.017453292519943295;
  OneEightyByPi := 57.29577951308232;
  DefaultGainLinear := 1;
  DefaultPosition := vec3 0 0 0;
  DefaultVelocity := vec3 0 0 0;
  DefaultOrientation := vec3 0 0 0
|}.

(** A listener at the origin, of ambisonic order [order]. *)
Definition listener_at_origin (order : float) : Listener float :=
  {| Listener_position := vec3 0 0 0; Listener_ambisonicOrder := order |}.

(** A listener at the place that a source has after [setPosition(x, y, z)],
    which is [(x, y, z)] as a [Float32Array] holds it. *)
Definition listener_at (x y z order : float) : Listener float :=
  {| Listener_position := vec3 (fround x) (fround y) (fround z);
     Listener_ambisonicOrder := order |}.

(** A call whose arguments are all finite numbers. *)
Definition finite_call (c : Call float) : bool :=
  match c with
  | setDistance distance => is_finite distance
  | setDirection azimuth elevation => is_finite azimuth && is_finite elevation
  end.

End Binary64.

(** * Properties *)

(** ** Properties that hold for every reading of the numbers *)

Section AnyNumber.

Context {N : Type} `{Number N}.

Variable G : Globals N.

(** What [setAngleFromListener] hands to the two collaborators. *)
Lemma setAngleFromListener_calls (azimuth : N) (elevation distance : option N)
    (s : Source N) :
  snd (setAngleFromListener G azimuth elevation distance s) =
  [setDistance (match distance with None => one | Some d => d end);
   setDirection (- azimuth)%js
     (match elevation with None => zero | Some e => e end)].
Proof. reflexivity. Qed.

(** [setOrientation] and [setDirectivity] call no collaborator. *)
Lemma setOrientation_calls (roll pitch yaw : N) (s : Source N) :
  snd (setOrientation roll pitch yaw s) = [].
Proof. reflexivity. Qed.

Lemma setDirectivity_calls (alpha order : N) (s : Source N) :
  snd (setDirectivity alpha order s) = [].
Proof. reflexivity. Qed.

(** [setPosition] stores its arguments, converted to binary32. *)
Lemma setPosition_position (x y z : N) (s : Source N) :
  _position (fst (setPosition G x y z s)) =
  vec3 (Float32 x) (Float32 y) (Float32 z).
Proof.
  unfold setPosition.
  destruct (computeDirectionAndDistance _ _) as [distance dx].
  destruct (computeAzimuthElevation G dx) as [azimuth elevation].
  reflexivity.
Qed.

(** No setter writes the velocity field, so it stays what the constructor
    made it, a zero-filled [Float32Array], whatever [options.velocity] is. *)
Lemma setPosition_velocity (x y z : N) (s : Source N) :
  _velocity (fst (setPosition G x y z s)) = _velocity s.
Proof. reflexivity. Qed.

Lemma Source_new_velocity
    (listener : Listener N) (options : option (Options N)) :
  _velocity (fst (Source_new G listener options)) = Float32Array3.
Proof.
  unfold Source_new.
  destruct (setPosition _ _ _ _ _) as [s1 c1] eqn:Hpos.
  cbn [setVelocity setOrientation fst _velocity with_input_gain
       with_orientation].
  change s1 with (fst (s1, c1)). rewrite <- Hpos.
  apply setPosition_velocity.
Qed.

(** C6 (amended).  [setVelocity(x, y, z)] has no effect at all: the source
    is returned as it was, its velocity field included, and no collaborator
    is called.  The arguments are accepted and dropped. *)
Theorem setVelocity_no_effect (x y z : N) (s : Source N) :
  setVelocity x y z s = (s, []).
Proof. reflexivity. Qed.

(** C9.  The position stored by [setAngleFromListener] does not depend on
    the distance argument: for any two distances (given or left out) the
    two resulting sources are the same, position included; the distance
    only appears in the call of [setDistance]. *)
Theorem setAngleFromListener_position_ignores_distance
    (azimuth : N) (elevation d1 d2 : option N) (s : Source N) :
  _position (fst (setAngleFromListener G azimuth elevation d1 s)) =
  _position (fst (setAngleFromListener G azimuth elevation d2 s)) /\
  fst (setAngleFromListener G azimuth elevation d1 s) =
  fst (setAngleFromListener G azimuth elevation d2 s) /\
  snd (setAngleFromListener G azimuth elevation d1 s) =
  [setDistance (match d1 with None => one | Some d => d end);
   setDirection (- azimuth)%js
     (match elevation with None => zero | Some e => e end)].
Proof. repeat split. Qed.

End AnyNumber.

(** ** Properties in the exact reading *)

Section ExactReading.

Import Exact.

Local Open Scope R_scope.

(** Unfolds the operations of [Number] at [RNumber]. *)
Ltac exact_ops :=
  cbv [zero one half add sub mul div neg lt Math_sqrt Math_abs Math_sin
       Math_cos Math_atan2 Math_pow Math_min Math_max Float32 RNumber] in *.

Lemma ltb_true (a b : R) : a < b -> ltb a b = true.
Proof. intros Hab. unfold ltb. destruct (Rlt_dec a b); [reflexivity | lra]. Qed.

Lemma ltb_false (a b : R) : b <= a -> ltb a b = false.
Proof. intros Hba. unfold ltb. destruct (Rlt_dec a b); [lra | reflexivity]. Qed.

Lemma Rpower_1_l (y : R) : Rpower 1 y = 1.
Proof. unfold Rpower. rewrite ln_1, Rmult_0_r. apply exp_0. Qed.

Lemma pow_1_r (x : R) : 0 <= x -> pow x 1 = x.
Proof.
  intros Hx. unfold pow.
  destruct (Req_dec_T 1 0) as [H10 | _]; [lra |].
  destruct (Req_dec_T x 0) as [Hx0 | Hx0]; [congruence |].
  apply Rpower_1. lra.
Qed.

Lemma pow_unit_interval (x y : R) :
  0 <= x <= 1 -> 1 <= y -> 0 <= pow x y <= 1.
Proof.
  intros [Hx0 Hx1] Hy. unfold pow.
  destruct (Req_dec_T y 0) as [Hy0 | _]; [lra |].
  destruct (Req_dec_T x 0) as [Hxz | Hxz]; [lra |].
  split.
  - left. apply exp_pos.
  - rewrite <- (Rpower_1_l y). apply Rle_Rpower_l; lra.
Qed.

(** Cauchy-Schwarz for two unit vectors, from [|u - v|^2 >= 0] and
    [|u + v|^2 >= 0]. *)
Lemma dot_unit_bound (u v : Vec3 R) :
  norm2 u = 1 -> norm2 v = 1 -> -1 <= dot u v <= 1.
Proof.
  unfold norm2, dot. destruct u as [a b c], v as [a' b' c']. simpl.
  intros Hu Hv.
  pose proof (Rle_0_sqr (a - a')). pose proof (Rle_0_sqr (b - b')).
  pose proof (Rle_0_sqr (c - c')). pose proof (Rle_0_sqr (a + a')).
  pose proof (Rle_0_sqr (b + b')). pose proof (Rle_0_sqr (c + c')).
  unfold Rsqr in *. lra.
Qed.

(** [computeDirectivity], with the operations read as real ones. *)
Lemma computeDirectivity_exact (G : Globals R) (forward d : Vec3 R)
    (alpha order : R) :
  computeDirectivity G forward d alpha order =
  if ltb alpha (EpsilonFloat G) then 1
  else pow (Rabs ((1 - alpha) + alpha * dot forward d)) order.
Proof. reflexivity. Qed.

(** With [alpha = 1] and [order = 1] the gain is [|cos theta|]. *)
Lemma computeDirectivity_bidirectional (G : Globals R) (forward d : Vec3 R) :
  EpsilonFloat G <= 1 ->
  computeDirectivity G forward d 1 1 = Rabs (dot forward d).
Proof.
  intros He. rewrite computeDirectivity_exact, ltb_false by exact He.
  rewrite pow_1_r by apply Rabs_pos.
  f_equal. ring.
Qed.

(** The squared norm of [toQuaternion]'s result is the product of three
    [cos^2 + sin^2]. *)
Lemma toQuaternion_qnorm2 (roll pitch yaw : R) :
  qnorm2 (toQuaternion roll pitch yaw) = 1.
Proof.
  unfold qnorm2, toQuaternion. exact_ops. cbn [q0 q1 q2 q3].
  pose proof (sin2_cos2 (yaw * / 2)) as Hy.
  pose proof (sin2_cos2 (roll * / 2)) as Hr.
  pose proof (sin2_cos2 (pitch * / 2)) as Hp.
  unfold Rsqr in Hy, Hr, Hp.
  set (t0 := cos (yaw * / 2)) in *. set (t1 := sin (yaw * / 2)) in *.
  set (t2 := cos (roll * / 2)) in *. set (t3 := sin (roll * / 2)) in *.
  set (t4 := cos (pitch * / 2)) in *. set (t5 := sin (pitch * / 2)) in *.
  transitivity ((t1 * t1 + t0 * t0) * (t3 * t3 + t2 * t2)
                * (t5 * t5 + t4 * t4)); [ring |].
  rewrite Hy, Hr, Hp. ring.
Qed.

(** The quaternion of the zero angles is the identity [[1, 0, 0, 0]]. *)
Lemma toQuaternion_0 : toQuaternion 0 0 0 = quat 1 0 0 0.
Proof.
  unfold toQuaternion. exact_ops.
  rewrite Rmult_0_l, cos_0, sin_0. f_equal; ring.
Qed.

(** *** The default source *)

Lemma source0_listener : _listener source0 = listener_at_origin.
Proof. reflexivity. Qed.

Lemma source0_velocity : _velocity source0 = vec3 0 0 0.
Proof. reflexivity. Qed.

(** C6 as stated fails: [setVelocity(1, 2, 3)] on the default source leaves
    the velocity field at [(0, 0, 0)]; [(1, 2, 3)] is not stored. *)
Lemma setVelocity_1_2_3_not_stored :
  _velocity (fst (setVelocity 1 2 3 source0)) <> vec3 1 2 3.
Proof.
  cbn [setVelocity fst]. rewrite source0_velocity.
  intros Heq. injection Heq as H0 H1 H2. lra.
Qed.

(** *** [setPosition(0, 0, 5)] with the listener at the origin *)

Lemma atan2_0_pos (x : R) : 0 < x -> atan2 0 x = 0.
Proof.
  intros Hx. unfold atan2. destruct (Rlt_dec 0 x) as [_ | Hn]; [| lra].
  unfold Rdiv. rewrite Rmult_0_l. apply atan_0.
Qed.

Lemma computeDirectionAndDistance_0_0_5 :
  computeDirectionAndDistance (vec3 0 0 5) (vec3 0 0 0) = (5, vec3 0 0 1).
Proof.
  unfold computeDirectionAndDistance. exact_ops. cbn [e0 e1 e2].
  replace (0 - 0) with 0 by ring. replace (5 - 0) with 5 by ring.
  replace (0 * 0 + 0 * 0 + 5 * 5) with (5 * 5) by ring.
  rewrite sqrt_square by lra.
  f_equal. f_equal; field.
Qed.

Lemma computeAzimuthElevation_0_0_1 (G : Globals R) :
  computeAzimuthElevation G (vec3 0 0 1) = (0, 0).
Proof.
  unfold computeAzimuthElevation. exact_ops. cbn [e0 e1 e2].
  replace (0 * 0 + 1 * 1) with 1 by ring.
  rewrite Ropp_0, sqrt_1, atan2_0_pos by lra.
  f_equal; ring.
Qed.

Lemma setPosition_0_0_5_calls (G : Globals R) (s : Source R) :
  Listener_position (_listener s) = vec3 0 0 0 ->
  snd (setPosition G 0 0 5 s) = [setDistance 5; setDirection 0 0].
Proof.
  intros Hl. unfold setPosition. rewrite Hl.
  change (vec3 (Float32 0) (Float32 0) (Float32 5)) with (vec3 0 0 5).
  rewrite computeDirectionAndDistance_0_0_5, computeAzimuthElevation_0_0_1.
  reflexivity.
Qed.

(** C2 (amended).  With the listener at the origin, [setPosition(0, 0, 5)]
    passes the distance 5 to the attenuation, computes the normalized
    direction [(0, 0, 1)] (source position minus listener position, so it
    points from the listener to the source), and passes azimuth 0 and
    elevation 0 to the encoder.  The forward vector plays no part.  In
    binary64 the same values come out, the azimuth as [-0]:
    [setPosition_0_0_5_binary64]. *)
Theorem setPosition_0_0_5_direction_and_angles
    (G : Globals R) (s : Source R) :
  Listener_position (_listener s) = vec3 0 0 0 ->
  computeDirectionAndDistance (vec3 0 0 5) (Listener_position (_listener s))
    = (5, vec3 0 0 1) /\
  snd (setPosition G 0 0 5 s) = [setDistance 5; setDirection 0 0].
Proof.
  intros Hl. split.
  - rewrite Hl. apply computeDirectionAndDistance_0_0_5.
  - apply setPosition_0_0_5_calls, Hl.
Qed.

Lemma setPosition_0_0_5_direction_and_angles_witness :
  computeDirectionAndDistance (vec3 0 0 5)
    (Listener_position (_listener source0)) = (5, vec3 0 0 1) /\
  snd (setPosition globals 0 0 5 source0) = [setDistance 5; setDirection 0 0].
Proof.
  apply (setPosition_0_0_5_direction_and_angles globals source0).
  reflexivity.
Defined.

(** C2 as stated fails: for the default source of a listener at the origin,
    [setPosition(0, 0, 5)] does not compute the direction [(0, 0, -1)] and
    does not pass azimuth 180. *)
Lemma setPosition_0_0_5_not_180 :
  ~ (computeDirectionAndDistance (vec3 0 0 5)
       (Listener_position (_listener source0)) = (5, vec3 0 0 (-1)) /\
     snd (setPosition globals 0 0 5 source0)
     = [setDistance 5; setDirection 180 0]).
Proof.
  intros [_ Hcalls].
  rewrite (setPosition_0_0_5_calls globals source0 eq_refl) in Hcalls.
  injection Hcalls as Haz. lra.
Qed.

(** *** [setAngleFromListener] *)

Lemma setAngleFromListener_position_exact (G : Globals R) (azimuth : R)
    (elevation distance : option R) (s : Source R) :
  let theta := azimuth * PiByOneEighty G in
  let phi := match elevation with None => 0 | Some e => e end
             * PiByOneEighty G in
  let lp := Listener_position (_listener s) in
  _position (fst (setAngleFromListener G azimuth elevation distance s)) =
  vec3 (e0 lp + - sin theta * cos phi)
       (e1 lp + sin theta)
       (e2 lp + - cos theta * cos phi).
Proof. reflexivity. Qed.

(** The position that [setAngleFromListener(90, 0, d)] stores when the
    listener is at the origin. *)
Lemma setAngleFromListener_90_0_position (G : Globals R)
    (distance : option R) (s : Source R) :
  PiByOneEighty G = PI / 180 ->
  Listener_position (_listener s) = vec3 0 0 0 ->
  _position (fst (setAngleFromListener G 90 (Some 0) distance s)) =
  vec3 (-1) 1 0.
Proof.
  intros Hk Hl. rewrite setAngleFromListener_position_exact, Hk, Hl.
  cbn [e0 e1 e2].
  replace (90 * (PI / 180)) with (PI / 2) by field.
  rewrite Rmult_0_l, sin_PI2, cos_PI2, cos_0.
  f_equal; ring.
Qed.

(** C3 (amended).  For a listener at the origin, [setAngleFromListener(90, 0,
    2)] stores a position whose x is -1 and whose z is 0, the unit offset of
    azimuth 90, to which the distance 2 is not applied; it passes the
    distance 2 to the attenuation and azimuth -90, elevation 0 to the
    encoder.  (Nothing is said of y.) *)
Theorem setAngleFromListener_90_0_2_unit_offset
    (G : Globals R) (s : Source R) :
  PiByOneEighty G = PI / 180 ->
  Listener_position (_listener s) = vec3 0 0 0 ->
  e0 (_position (fst (setAngleFromListener G 90 (Some 0) (Some 2) s))) = -1 /\
  e2 (_position (fst (setAngleFromListener G 90 (Some 0) (Some 2) s))) = 0 /\
  snd (setAngleFromListener G 90 (Some 0) (Some 2) s) =
  [setDistance 2; setDirection (- 90) 0].
Proof.
  intros Hk Hl.
  rewrite (setAngleFromListener_90_0_position G (Some 2) s Hk Hl).
  repeat split.
Qed.

Lemma setAngleFromListener_90_0_2_unit_offset_witness :
  e0 (_position
        (fst (setAngleFromListener globals 90 (Some 0) (Some 2) source0)))
  = -1 /\
  e2 (_position
        (fst (setAngleFromListener globals 90 (Some 0) (Some 2) source0)))
  = 0 /\
  snd (setAngleFromListener globals 90 (Some 0) (Some 2) source0) =
  [setDistance 2; setDirection (- 90) 0].
Proof.
  apply (setAngleFromListener_90_0_2_unit_offset globals source0);
    reflexivity.
Defined.

(** C3 as stated fails: the stored position is [(-1, 1, 0)], which is not
    within 1/1000 of [(-2, 0, 0)] (nor within any tolerance below 1). *)
Lemma setAngleFromListener_90_0_2_not_minus_2 :
  ~ (Rabs (e0 (_position (fst (setAngleFromListener globals 90 (Some 0)
                                 (Some 2) source0))) - (-2)) <= / 1000 /\
     Rabs (e1 (_position (fst (setAngleFromListener globals 90 (Some 0)
                                 (Some 2) source0))) - 0) <= / 1000 /\
     Rabs (e2 (_position (fst (setAngleFromListener globals 90 (Some 0)
                                 (Some 2) source0))) - 0) <= / 1000).
Proof.
  rewrite (setAngleFromListener_90_0_position globals (Some 2) source0
             eq_refl eq_refl).
  cbn [e0 e1 e2]. intros (Hx & _ & _).
  replace (-1 - -2) with 1 in Hx by ring.
  rewrite Rabs_R1 in Hx. lra.
Qed.

(** *** [setDirectivity] *)

Lemma setDirectivity_exact (alpha order : R) (s : Source R) :
  _directivity_alpha (fst (setDirectivity alpha order s))
    = Rmin 1 (Rmax 0 alpha) /\
  _directivity_order (fst (setDirectivity alpha order s)) = Rmin 1 order.
Proof. split; reflexivity. Qed.

(** C4, on the code.  [setDirectivity] stores [Math.min(1, order)], an upper
    bound of 1 and no lower bound: the order 2 is stored as 1, and the order
    1/2 is stored as it is.  Its own comment reads "Clamp between 1 and
    Inf".  Binary64 agrees: [setDirectivity_order_binary64]. *)
Theorem setDirectivity_order_clamped_from_above (alpha : R) (s : Source R) :
  _directivity_order (fst (setDirectivity alpha 2 s)) = 1 /\
  _directivity_order (fst (setDirectivity alpha (/ 2) s)) = / 2.
Proof.
  split.
  - rewrite (proj2 (setDirectivity_exact alpha 2 s)). apply Rmin_left. lra.
  - rewrite (proj2 (setDirectivity_exact alpha (/ 2) s)).
    apply Rmin_right. lra.
Qed.

(** *** [computeDirectivity] *)

(** C5 (amended).  [computeDirectivity] with [alpha = 1] and [order = 1]
    returns 1 when forward and the direction are parallel ([cosTheta = 1])
    and returns 1 as well when they are antiparallel ([cosTheta = -1]): the
    absolute value of the gain is taken before the power.  [EpsilonFloat] is
    taken to be at most 1. *)
Theorem computeDirectivity_alpha_1_order_1
    (G : Globals R) (forward d : Vec3 R) :
  EpsilonFloat G <= 1 ->
  dot forward d = 1 \/ dot forward d = -1 ->
  computeDirectivity G forward d 1 1 = 1.
Proof.
  intros He Hcos. rewrite computeDirectivity_bidirectional by exact He.
  destruct Hcos as [Hcos | Hcos]; rewrite Hcos.
  - apply Rabs_R1.
  - rewrite Rabs_left by lra. ring.
Qed.

Lemma computeDirectivity_alpha_1_order_1_witness :
  computeDirectivity globals (vec3 0 0 1) (vec3 0 0 (-1)) 1 1 = 1.
Proof.
  apply (computeDirectivity_alpha_1_order_1 globals
           (vec3 0 0 1) (vec3 0 0 (-1))).
  - cbn [EpsilonFloat globals]. lra.
  - right. unfold dot. cbn [e0 e1 e2]. lra.
Defined.

(** C5 as stated fails: for the antiparallel unit vectors [(0, 0, 1)] and
    [(0, 0, -1)], whose [cosTheta] is -1, the result is not 0. *)
Lemma computeDirectivity_antiparallel_not_0 :
  ~ (dot (vec3 0 0 1) (vec3 0 0 (-1)) = -1 ->
     computeDirectivity globals (vec3 0 0 1) (vec3 0 0 (-1)) 1 1 = 0).
Proof.
  intros Hclaim.
  assert (Hdot : dot (vec3 0 0 1) (vec3 0 0 (-1)) = -1)
    by (unfold dot; cbn [e0 e1 e2]; lra).
  specialize (Hclaim Hdot).
  rewrite computeDirectivity_bidirectional in Hclaim
    by (cbn [EpsilonFloat globals]; lra).
  rewrite Hdot, Rabs_left in Hclaim by lra. lra.
Qed.

(** C7.  For [alpha] in [[0, 1]], [order >= 1] and unit vectors [forward]
    and [d], the value of [computeDirectivity] lies in [[0, 1]]. *)
Theorem computeDirectivity_range
    (G : Globals R) (forward d : Vec3 R) (alpha order : R) :
  0 <= alpha <= 1 -> 1 <= order ->
  norm2 forward = 1 -> norm2 d = 1 ->
  0 <= computeDirectivity G forward d alpha order <= 1.
Proof.
  intros Ha Ho Hf Hd. rewrite computeDirectivity_exact.
  destruct (ltb alpha (EpsilonFloat G)); [lra |].
  apply pow_unit_interval; [| exact Ho].
  pose proof (dot_unit_bound forward d Hf Hd) as Hcos.
  split; [apply Rabs_pos |].
  apply Rabs_le. split; nra.
Qed.

Lemma computeDirectivity_range_witness :
  0 <= computeDirectivity globals (vec3 0 0 1) (vec3 0 1 0) (/ 2) 2 <= 1.
Proof.
  apply (computeDirectivity_range globals (vec3 0 0 1) (vec3 0 1 0) (/ 2) 2).
  - lra.
  - lra.
  - unfold norm2. cbn [e0 e1 e2]. lra.
  - unfold norm2. cbn [e0 e1 e2]. lra.
Defined.

(** *** [setOrientation] *)

(** C8.  After [setOrientation(0, 0, 0)] the stored forward vector is the
    local +Z axis [(0, 0, 1)].  Binary64 agrees, for every math library:
    [setOrientation_0_binary64]. *)
Theorem setOrientation_0_forward (s : Source R) :
  _forward (fst (setOrientation 0 0 0 s)) = vec3 0 0 1.
Proof.
  unfold setOrientation. cbn [fst _forward with_orientation].
  rewrite toQuaternion_0. unfold hamiltonProduct. exact_ops.
  cbn [q0 q1 q2 q3]. f_equal; ring.
Qed.

(** C10.  For every roll, pitch and yaw, in exact real arithmetic, the
    quaternion of [toQuaternion] has norm 1 (its squared norm is 1), and so
    has the orientation quaternion that [setOrientation] stores. *)
Theorem setOrientation_unit_quaternion (roll pitch yaw : R) (s : Source R) :
  qnorm2 (toQuaternion roll pitch yaw) = 1 /\
  sqrt (qnorm2 (_orientation_q (fst (setOrientation roll pitch yaw s)))) = 1.
Proof.
  split; [apply toQuaternion_qnorm2 |].
  cbn [setOrientation fst _orientation_q with_orientation].
  rewrite toQuaternion_qnorm2. apply sqrt_1.
Qed.

End ExactReading.

(** ** Properties in the binary64 reading *)

Section Binary64Reading.

Import Binary64.

Context {M : MathLib}.

Local Open Scope float_scope.

(** NaN absorbs a product. *)
Lemma mul_nan_l (k : float) : nan * k = nan.
Proof.
  apply Prim2SF_inj. rewrite mul_spec.
  change (Prim2SF nan) with S754_nan. reflexivity.
Qed.

(** A double minus itself is [+0], or NaN when it is NaN or infinite. *)
Lemma sub_diag_cases (x : float) : x - x = 0 \/ x - x = nan.
Proof.
  assert (Hsf : SF64sub (Prim2SF x) (Prim2SF x) = S754_zero false \/
                SF64sub (Prim2SF x) (Prim2SF x) = S754_nan).
  { destruct (Prim2SF x) as [[|] | [|] | | sx mx ex]; cbn; auto.
    left. unfold SF64sub, SFsub. rewrite Z.sub_diag. reflexivity. }
  destruct Hsf as [Hz | Hn]; [left | right];
    apply Prim2SF_inj; rewrite sub_spec; assumption.
Qed.

(** The difference vector of a position and itself, as [setPosition] holds
    it in its [Float32Array]: every element is [+0] or NaN. *)
Lemma fround_sub_diag_cases (x : float) :
  fround (x - x) = 0 \/ fround (x - x) = nan.
Proof.
  destruct (sub_diag_cases x) as [Hx | Hx]; rewrite Hx; [left | right];
    reflexivity.
Qed.

(** The angles of a direction vector whose elements are all NaN. *)
Lemma computeAzimuthElevation_nan (G : Globals float) :
  computeAzimuthElevation G (vec3 nan nan nan) = (nan, nan).
Proof.
  unfold computeAzimuthElevation. cbn [e0 e1 e2].
  change (Math_atan2 (- nan)%js nan) with nan.
  change (Math_atan2 nan (Math_sqrt (nan * nan + nan * nan)%js)) with nan.
  cbn [mul FloatNumber]. rewrite mul_nan_l. reflexivity.
Qed.

(** Lines 115-124 when the position is the listener's: the distance is
    [+0] (or NaN, for a NaN or infinite coordinate) and the division makes
    every element of the direction NaN. *)
Lemma computeDirectionAndDistance_diag (p : Vec3 float) :
  exists d, (d = 0 \/ d = nan) /\
            computeDirectionAndDistance p p = (d, vec3 nan nan nan).
Proof.
  unfold computeDirectionAndDistance. cbn [Float32 sub FloatNumber].
  destruct (fround_sub_diag_cases (e0 p)) as [H0 | H0];
  destruct (fround_sub_diag_cases (e1 p)) as [H1 | H1];
  destruct (fround_sub_diag_cases (e2 p)) as [H2 | H2];
  rewrite H0, H1, H2; cbn [e0 e1 e2];
  eexists; (split; [| reflexivity]); auto.
Qed.

(** C1, on the code.  Whenever [setPosition(x, y, z)] stores the position the
    listener is at, the collaborators are NOT given finite values: the
    encoder gets NaN for both angles, and the attenuation gets the distance
    [+0] (NaN for a NaN or infinite coordinate), which is no positive
    epsilon.  Nothing guards the division by the distance. *)
Theorem setPosition_at_listener_passes_nan
    (G : Globals float) (s : Source float) (order x y z : float) :
  exists d,
    snd (setPosition G x y z (with_listener (listener_at x y z order) s)) =
    [setDistance d; setDirection nan nan] /\
    (d = 0 \/ d = nan) /\
    (0 <? d) = false /\
    forallb finite_call
      (snd (setPosition G x y z (with_listener (listener_at x y z order) s)))
    = false.
Proof.
  unfold setPosition.
  cbn [_listener with_listener Listener_position listener_at].
  change (@Float32 float FloatNumber) with fround.
  destruct (computeDirectionAndDistance_diag
              (vec3 (fround x) (fround y) (fround z))) as (d & Hd & Heq).
  rewrite Heq, computeAzimuthElevation_nan.
  exists d. cbn [snd].
  destruct Hd as [Hd | Hd]; subst d; repeat split; auto.
Qed.

(** The case of the origin, which is the constructor's default. *)
Lemma setPosition_0_0_0_at_origin
    (G : Globals float) (s : Source float) (order : float) :
  snd (setPosition G 0 0 0 (with_listener (listener_at_origin order) s)) =
  [setDistance 0; setDirection nan nan].
Proof.
  unfold setPosition. cbn [_listener with_listener Listener_position].
  change (computeDirectionAndDistance (vec3 (Float32 0) (Float32 0)
            (Float32 0)) (Listener_position (listener_at_origin order)))
    with (0, vec3 nan nan nan).
  cbv iota beta. rewrite computeAzimuthElevation_nan. reflexivity.
Qed.

(** [new Source(listener)] with no options and the listener at the origin
    already makes these calls. *)
Lemma Source_new_default_calls (order : float) :
  snd (Source_new globals (listener_at_origin order) None) =
  [setDistance 0; setDirection nan nan].
Proof. reflexivity. Qed.

(** [setPosition(0, 0, 5)] with the listener at the origin. *)
Lemma setPosition_0_0_5_binary64 (s : Source float) (order : float) :
  computeDirectionAndDistance (vec3 0 0 5) (vec3 0 0 0) = (5, vec3 0 0 1) /\
  snd (setPosition globals 0 0 5 (with_listener (listener_at_origin order) s))
  = [setDistance 5; setDirection (-0) 0].
Proof. split; reflexivity. Qed.

(** [setOrientation(0, 0, 0)]: [Math.cos(0)] is 1 and [Math.sin(0)] is 0
    whatever the library. *)
Lemma setOrientation_0_binary64 (s : Source float) :
  _orientation_q (fst (setOrientation 0 0 0 s)) = quat 1 0 0 0 /\
  _forward (fst (setOrientation 0 0 0 s)) = vec3 0 0 1.
Proof. split; reflexivity. Qed.

(** [setDirectivity]: [Math.min(1, order)]. *)
Lemma setDirectivity_order_binary64 (s : Source float) :
  _directivity_order (fst (setDirectivity 0.5 2 s)) = 1 /\
  _directivity_order (fst (setDirectivity 0.5 0.5 s)) = 0.5.
Proof. split; reflexivity. Qed.

End Binary64Reading.

(** ** Quaternions and orientation, in the exact reading *)

Section ExactOrientation.

Import Exact.

Local Open Scope R_scope.

Ltac real_ops :=
  cbv [zero one half add sub mul div neg lt Math_sqrt Math_abs Math_sin
       Math_cos Math_atan2 Math_pow Math_min Math_max Float32 RNumber] in *.

(** The norm is multiplicative for [hamiltonProduct] (Euler's four-square
    identity). *)
Theorem hamiltonProduct_qnorm2 (a b : Quat R) :
  qnorm2 (hamiltonProduct a b) = qnorm2 a * qnorm2 b.
Proof.
  destruct a as [a0 a1 a2 a3], b as [b0 b1 b2 b3].
  unfold qnorm2, hamiltonProduct. real_ops. cbn [q0 q1 q2 q3]. ring.
Qed.

(** [hamiltonProduct] is associative and [[1, 0, 0, 0]] is its unit on both
    sides. *)
Theorem hamiltonProduct_monoid (a b c : Quat R) :
  hamiltonProduct (hamiltonProduct a b) c
    = hamiltonProduct a (hamiltonProduct b c) /\
  hamiltonProduct (quat 1 0 0 0) a = a /\
  hamiltonProduct a (quat 1 0 0 0) = a.
Proof.
  destruct a as [a0 a1 a2 a3], b as [b0 b1 b2 b3], c as [c0 c1 c2 c3].
  unfold hamiltonProduct. real_ops. cbn [q0 q1 q2 q3].
  repeat split; f_equal; ring.
Qed.

(** The product of a quaternion and its conjugate is its squared norm, so
    the conjugate that [setOrientation] uses is the inverse of a unit
    quaternion. *)
Theorem hamiltonProduct_conjugate (q : Quat R) :
  hamiltonProduct q (conjugate q) = quat (qnorm2 q) 0 0 0 /\
  hamiltonProduct (conjugate q) q = quat (qnorm2 q) 0 0 0.
Proof.
  destruct q as [a0 a1 a2 a3].
  unfold hamiltonProduct, conjugate, qnorm2. real_ops. cbn [q0 q1 q2 q3].
  split; f_equal; ring.
Qed.

(** [toQuaternion] is the product of three rotations about the axes: yaw
    about z, then pitch about y, then roll about x. *)
Theorem toQuaternion_factors (roll pitch yaw : R) :
  toQuaternion roll pitch yaw =
  hamiltonProduct
    (hamiltonProduct (toQuaternion 0 0 yaw) (toQuaternion 0 pitch 0))
    (toQuaternion roll 0 0).
Proof.
  unfold toQuaternion, hamiltonProduct. real_ops. cbn [q0 q1 q2 q3].
  rewrite Rmult_0_l, cos_0, sin_0. f_equal; ring.
Qed.

(** The forward vector in terms of the stored quaternion. *)
Lemma setOrientation_forward_quat (roll pitch yaw : R) (s : Source R) :
  _forward (fst (setOrientation roll pitch yaw s)) =
  let q := toQuaternion roll pitch yaw in
  vec3 (2 * (q1 q * q3 q + q0 q * q2 q))
       (2 * (q2 q * q3 q - q0 q * q1 q))
       (q0 q * q0 q - q1 q * q1 q - q2 q * q2 q + q3 q * q3 q).
Proof.
  unfold setOrientation. cbn [fst _forward with_orientation].
  destruct (toQuaternion roll pitch yaw) as [a0 a1 a2 a3].
  unfold hamiltonProduct. real_ops. cbn [q0 q1 q2 q3]. f_equal; ring.
Qed.

(** Sine and cosine of an angle from those of its half. *)
Lemma sin_cos_half (x : R) :
  sin x = 2 * sin (x * / 2) * cos (x * / 2) /\
  cos x = cos (x * / 2) * cos (x * / 2) - sin (x * / 2) * sin (x * / 2) /\
  sin (x * / 2) * sin (x * / 2) + cos (x * / 2) * cos (x * / 2) = 1.
Proof.
  repeat split.
  - rewrite <- sin_2a. f_equal. field.
  - rewrite <- cos_2a. f_equal. field.
  - apply (sin2_cos2 (x * / 2)).
Qed.

(** The forward vector that [setOrientation(roll, pitch, yaw)] stores, in
    terms of the angles: the local +Z axis turned by roll about x, then by
    pitch about y, then by yaw about z. *)
Theorem setOrientation_forward_angles (roll pitch yaw : R) (s : Source R) :
  _forward (fst (setOrientation roll pitch yaw s)) =
  vec3 (cos roll * sin pitch * cos yaw + sin roll * sin yaw)
       (cos roll * sin pitch * sin yaw - sin roll * cos yaw)
       (cos roll * cos pitch).
Proof.
  rewrite setOrientation_forward_quat.
  unfold toQuaternion. real_ops. cbv zeta. cbn [q0 q1 q2 q3].
  destruct (sin_cos_half roll) as (Hsr & Hcr & Hr).
  destruct (sin_cos_half pitch) as (Hsp & Hcp & Hp).
  destruct (sin_cos_half yaw) as (Hsy & Hcy & Hy).
  rewrite Hsr, Hcr, Hsp, Hcp, Hsy, Hcy.
  set (t0 := cos (yaw * / 2)) in *. set (t1 := sin (yaw * / 2)) in *.
  set (t2 := cos (roll * / 2)) in *. set (t3 := sin (roll * / 2)) in *.
  set (t4 := cos (pitch * / 2)) in *. set (t5 := sin (pitch * / 2)) in *.
  f_equal.
  - transitivity
      ((t2 * t2 - t3 * t3) * (2 * t5 * t4) * (t0 * t0 - t1 * t1)
       + 2 * t3 * t2 * (2 * t1 * t0) * (t5 * t5 + t4 * t4)); [ring |].
    rewrite Hp. ring.
  - transitivity
      ((t2 * t2 - t3 * t3) * (2 * t5 * t4) * (2 * t1 * t0)
       - 2 * t3 * t2 * (t0 * t0 - t1 * t1) * (t5 * t5 + t4 * t4)); [ring |].
    rewrite Hp. ring.
  - transitivity
      ((t2 * t2 - t3 * t3) * (t4 * t4 - t5 * t5) * (t1 * t1 + t0 * t0));
      [ring |].
    rewrite Hy. ring.
Qed.

(** Turning [(0, 0, 1)] by a quaternion scales its length by the squared
    norm of the quaternion. *)
Lemma rotated_axis_norm2 (a0 a1 a2 a3 : R) :
  norm2 (vec3 (2 * (a1 * a3 + a0 * a2)) (2 * (a2 * a3 - a0 * a1))
              (a0 * a0 - a1 * a1 - a2 * a2 + a3 * a3))
  = qnorm2 (quat a0 a1 a2 a3) * qnorm2 (quat a0 a1 a2 a3).
Proof. unfold norm2, qnorm2. cbn [q0 q1 q2 q3 e0 e1 e2]. ring. Qed.

Lemma forward_norm2 (roll pitch yaw : R) (s : Source R) :
  norm2 (_forward (fst (setOrientation roll pitch yaw s))) = 1.
Proof.
  rewrite setOrientation_forward_quat.
  pose proof (toQuaternion_qnorm2 roll pitch yaw) as Hq.
  destruct (toQuaternion roll pitch yaw) as [a0 a1 a2 a3].
  cbv zeta. cbn [q0 q1 q2 q3].
  rewrite rotated_axis_norm2, Hq. ring.
Qed.

(** The forward vector that [setOrientation] stores is a unit vector, for
    all angles; and the element 0 of the product [q * [0,0,0,1] * conj q],
    which [setOrientation] drops, is 0, so nothing of the product is lost. *)
Theorem setOrientation_forward_unit (roll pitch yaw : R) (s : Source R) :
  norm2 (_forward (fst (setOrientation roll pitch yaw s))) = 1 /\
  q0 (hamiltonProduct
        (hamiltonProduct (toQuaternion roll pitch yaw) (quat 0 0 0 1))
        (conjugate (toQuaternion roll pitch yaw))) = 0.
Proof.
  split; [apply forward_norm2 |].
  destruct (toQuaternion roll pitch yaw) as [a0 a1 a2 a3].
  unfold hamiltonProduct, conjugate. real_ops. cbn [q0 q1 q2 q3]. ring.
Qed.

(** One angle at a time.  Yaw alone leaves forward at [(0, 0, 1)], since it
    turns about the axis that forward lies on; roll alone tilts forward in
    the y-z plane and pitch alone in the x-z plane. *)
Theorem setOrientation_single_axis (angle : R) (s : Source R) :
  _forward (fst (setOrientation 0 0 angle s)) = vec3 0 0 1 /\
  _forward (fst (setOrientation angle 0 0 s)) = vec3 0 (- sin angle) (cos angle)
  /\
  _forward (fst (setOrientation 0 angle 0 s)) = vec3 (sin angle) 0 (cos angle).
Proof.
  destruct (sin_cos_half angle) as (Hs & Hc & H1).
  rewrite !setOrientation_forward_quat.
  unfold toQuaternion. real_ops. cbv zeta. cbn [q0 q1 q2 q3].
  rewrite Rmult_0_l, cos_0, sin_0, Hs, Hc.
  set (c := cos (angle * / 2)) in *. set (sn := sin (angle * / 2)) in *.
  repeat split; f_equal; try ring.
  transitivity (sn * sn + c * c); [ring | exact H1].
Qed.

End ExactOrientation.

(** ** The geometry of [setPosition], in the exact reading *)

Section ExactPosition.

Import Exact.

Local Open Scope R_scope.

Ltac real_ops :=
  cbv [zero one half add sub mul div neg lt Math_sqrt Math_abs Math_sin
       Math_cos Math_atan2 Math_pow Math_min Math_max Float32 RNumber] in *.

(** Two positions differ when the squared length of their difference is
    positive. *)
Lemma difference_norm_pos (p l : Vec3 R) :
  p <> l ->
  0 < (e0 p - e0 l) * (e0 p - e0 l) + (e1 p - e1 l) * (e1 p - e1 l)
      + (e2 p - e2 l) * (e2 p - e2 l).
Proof.
  destruct p as [x y z], l as [a b c]. cbn [e0 e1 e2]. intros Hne.
  destruct (Req_dec x a) as [Hx | Hx];
  destruct (Req_dec y b) as [Hy | Hy];
  destruct (Req_dec z c) as [Hz | Hz];
  try (exfalso; apply Hne; subst; reflexivity).
  all: assert (Hsx := Rle_0_sqr (x - a));
       assert (Hsy := Rle_0_sqr (y - b));
       assert (Hsz := Rle_0_sqr (z - c)); unfold Rsqr in *.
  all: try (assert (0 < (x - a) * (x - a))
              by (apply Rsqr_pos_lt; lra); lra).
  all: try (assert (0 < (y - b) * (y - b))
              by (apply Rsqr_pos_lt; lra); lra).
  all: assert (0 < (z - c) * (z - c)) by (apply Rsqr_pos_lt; lra); lra.
Qed.

(** [computeDirectionAndDistance], with the operations read as real ones. *)
Lemma computeDirectionAndDistance_exact (p l : Vec3 R) :
  computeDirectionAndDistance p l =
  (sqrt ((e0 p - e0 l) * (e0 p - e0 l) + (e1 p - e1 l) * (e1 p - e1 l)
         + (e2 p - e2 l) * (e2 p - e2 l)),
   vec3 ((e0 p - e0 l) /
           sqrt ((e0 p - e0 l) * (e0 p - e0 l)
                 + (e1 p - e1 l) * (e1 p - e1 l)
                 + (e2 p - e2 l) * (e2 p - e2 l)))
        ((e1 p - e1 l) /
           sqrt ((e0 p - e0 l) * (e0 p - e0 l)
                 + (e1 p - e1 l) * (e1 p - e1 l)
                 + (e2 p - e2 l) * (e2 p - e2 l)))
        ((e2 p - e2 l) /
           sqrt ((e0 p - e0 l) * (e0 p - e0 l)
                 + (e1 p - e1 l) * (e1 p - e1 l)
                 + (e2 p - e2 l) * (e2 p - e2 l)))).
Proof. reflexivity. Qed.


Lemma direction_norm2 (p l : Vec3 R) :
  p <> l -> norm2 (snd (computeDirectionAndDistance p l)) = 1.
Proof.
  intros Hne. pose proof (difference_norm_pos p l Hne) as Hpos.
  rewrite computeDirectionAndDistance_exact. cbn [snd].
  unfold norm2. cbn [e0 e1 e2].
  set (n := (e0 p - e0 l) * (e0 p - e0 l) + (e1 p - e1 l) * (e1 p - e1 l)
            + (e2 p - e2 l) * (e2 p - e2 l)) in *.
  pose proof (sqrt_lt_R0 n Hpos) as Hd.
  pose proof (sqrt_sqrt n (Rlt_le _ _ Hpos)) as Hdd.
  set (d := sqrt n) in *.
  transitivity (n / (d * d)); [unfold n; field; lra |].
  rewrite Hdd. field. lra.
Qed.

(** Away from the listener, lines 115-124 of [setPosition] compute the
    Euclidean distance, which is positive, and a unit vector that points
    from the listener to the source: multiplied by the distance it gives
    back the difference of the two positions. *)
Theorem computeDirectionAndDistance_unit (p l : Vec3 R) :
  p <> l ->
  0 < fst (computeDirectionAndDistance p l) /\
  fst (computeDirectionAndDistance p l) * fst (computeDirectionAndDistance p l)
    = (e0 p - e0 l) * (e0 p - e0 l) + (e1 p - e1 l) * (e1 p - e1 l)
      + (e2 p - e2 l) * (e2 p - e2 l) /\
  norm2 (snd (computeDirectionAndDistance p l)) = 1 /\
  e0 (snd (computeDirectionAndDistance p l))
    * fst (computeDirectionAndDistance p l) = e0 p - e0 l /\
  e1 (snd (computeDirectionAndDistance p l))
    * fst (computeDirectionAndDistance p l) = e1 p - e1 l /\
  e2 (snd (computeDirectionAndDistance p l))
    * fst (computeDirectionAndDistance p l) = e2 p - e2 l.
Proof.
  intros Hne. pose proof (difference_norm_pos p l Hne) as Hpos.
  rewrite computeDirectionAndDistance_exact. cbn [fst snd].
  unfold norm2. cbn [e0 e1 e2].
  set (n := (e0 p - e0 l) * (e0 p - e0 l) + (e1 p - e1 l) * (e1 p - e1 l)
            + (e2 p - e2 l) * (e2 p - e2 l)) in *.
  pose proof (sqrt_lt_R0 n Hpos) as Hd.
  pose proof (sqrt_sqrt n (Rlt_le _ _ Hpos)) as Hdd.
  set (d := sqrt n) in *.
  repeat split; try exact Hd; try exact Hdd; try (field; lra).
  transitivity (n / (d * d)); [unfold n; field; lra |].
  rewrite Hdd. field. lra.
Qed.

Lemma computeDirectionAndDistance_unit_witness :
  0 < fst (computeDirectionAndDistance (vec3 3 0 4) (vec3 0 0 0)) /\
  fst (computeDirectionAndDistance (vec3 3 0 4) (vec3 0 0 0))
  * fst (computeDirectionAndDistance (vec3 3 0 4) (vec3 0 0 0))
    = (3 - 0) * (3 - 0) + (0 - 0) * (0 - 0) + (4 - 0) * (4 - 0) /\
  norm2 (snd (computeDirectionAndDistance (vec3 3 0 4) (vec3 0 0 0))) = 1 /\
  e0 (snd (computeDirectionAndDistance (vec3 3 0 4) (vec3 0 0 0)))
    * fst (computeDirectionAndDistance (vec3 3 0 4) (vec3 0 0 0)) = 3 - 0 /\
  e1 (snd (computeDirectionAndDistance (vec3 3 0 4) (vec3 0 0 0)))
    * fst (computeDirectionAndDistance (vec3 3 0 4) (vec3 0 0 0)) = 0 - 0 /\
  e2 (snd (computeDirectionAndDistance (vec3 3 0 4) (vec3 0 0 0)))
    * fst (computeDirectionAndDistance (vec3 3 0 4) (vec3 0 0 0)) = 4 - 0.
Proof.
  apply (computeDirectionAndDistance_unit (vec3 3 0 4) (vec3 0 0 0)).
  intros Heq. injection Heq as H3 _. lra.
Defined.






(** [setPosition] only sees the position relative to the listener: moving
    the source and the listener by the same offset changes neither the calls
    made nor the directivity gain. *)
Theorem setPosition_translation
    (G : Globals R) (x y z tx ty tz order : R) (s : Source R) :
  snd (setPosition G (x + tx) (y + ty) (z + tz)
         (with_listener
            {| Listener_position :=
                 vec3 (e0 (Listener_position (_listener s)) + tx)
                      (e1 (Listener_position (_listener s)) + ty)
                      (e2 (Listener_position (_listener s)) + tz);
               Listener_ambisonicOrder := order |} s))
  = snd (setPosition G x y z s) /\
  _directivity_gain
    (fst (setPosition G (x + tx) (y + ty) (z + tz)
            (with_listener
               {| Listener_position :=
                    vec3 (e0 (Listener_position (_listener s)) + tx)
                         (e1 (Listener_position (_listener s)) + ty)
                         (e2 (Listener_position (_listener s)) + tz);
                  Listener_ambisonicOrder := order |} s)))
  = _directivity_gain (fst (setPosition G x y z s)).
Proof.
  unfold setPosition.
  cbn [_listener with_listener Listener_position _forward
       _directivity_alpha _directivity_order].
  destruct (Listener_position (_listener s)) as [lx ly lz].
  rewrite !computeDirectionAndDistance_exact. real_ops. cbn [e0 e1 e2].
  replace (x + tx - (lx + tx)) with (x - lx) by ring.
  replace (y + ty - (ly + ty)) with (y - ly) by ring.
  replace (z + tz - (lz + tz)) with (z - lz) by ring.
  split; reflexivity.
Qed.

(** Moving the source along the ray from the listener multiplies the
    distance and keeps the direction. *)
Lemma computeDirectionAndDistance_scale (p l : Vec3 R) (k : R) :
  0 < k -> p <> l ->
  computeDirectionAndDistance
    (vec3 (e0 l + k * (e0 p - e0 l)) (e1 l + k * (e1 p - e1 l))
          (e2 l + k * (e2 p - e2 l))) l
  = (k * fst (computeDirectionAndDistance p l),
     snd (computeDirectionAndDistance p l)).
Proof.
  intros Hk Hne. pose proof (difference_norm_pos p l Hne) as Hpos.
  rewrite !computeDirectionAndDistance_exact. cbn [fst snd e0 e1 e2].
  set (a := e0 p - e0 l) in *. set (b := e1 p - e1 l) in *.
  set (c := e2 p - e2 l) in *.
  replace (e0 l + k * a - e0 l) with (k * a) by ring.
  replace (e1 l + k * b - e1 l) with (k * b) by ring.
  replace (e2 l + k * c - e2 l) with (k * c) by ring.
  replace (k * a * (k * a) + k * b * (k * b) + k * c * (k * c))
    with (k * k * (a * a + b * b + c * c)) by ring.
  rewrite sqrt_mult by nra. rewrite sqrt_square by lra.
  pose proof (sqrt_lt_R0 _ Hpos) as Hd.
  f_equal. f_equal; field; lra.
Qed.

(** [setPosition] at a point [k] times as far from the listener in the same
    direction ([k > 0]): the attenuation gets [k] times the distance, and
    the encoder's angles and the directivity gain are the same. *)
Theorem setPosition_scale (G : Globals R) (x y z k : R) (s : Source R) :
  0 < k ->
  vec3 x y z <> Listener_position (_listener s) ->
  exists d az el,
    snd (setPosition G x y z s) = [setDistance d; setDirection az el] /\
    snd (setPosition G
           (e0 (Listener_position (_listener s))
            + k * (x - e0 (Listener_position (_listener s))))
           (e1 (Listener_position (_listener s))
            + k * (y - e1 (Listener_position (_listener s))))
           (e2 (Listener_position (_listener s))
            + k * (z - e2 (Listener_position (_listener s)))) s)
    = [setDistance (k * d); setDirection az el] /\
    _directivity_gain
      (fst (setPosition G
              (e0 (Listener_position (_listener s))
               + k * (x - e0 (Listener_position (_listener s))))
              (e1 (Listener_position (_listener s))
               + k * (y - e1 (Listener_position (_listener s))))
              (e2 (Listener_position (_listener s))
               + k * (z - e2 (Listener_position (_listener s)))) s))
    = _directivity_gain (fst (setPosition G x y z s)).
Proof.
  intros Hk Hne.
  pose proof (computeDirectionAndDistance_scale (vec3 x y z) _ k Hk Hne)
    as Hscale.
  cbn [e0 e1 e2] in Hscale.
  unfold setPosition.
  change (@Float32 R RNumber) with (fun r : R => r). cbv beta.
  rewrite Hscale.
  destruct (computeDirectionAndDistance (vec3 x y z)
              (Listener_position (_listener s))) as [d dx].
  cbn [fst snd].
  destruct (computeAzimuthElevation G dx) as [az el].
  exists d, az, el. repeat split.
Qed.

Lemma setPosition_scale_witness :
  exists d az el,
    snd (setPosition globals 3 0 4 source0)
    = [setDistance d; setDirection az el] /\
    snd (setPosition globals
           (e0 (Listener_position (_listener source0))
            + 2 * (3 - e0 (Listener_position (_listener source0))))
           (e1 (Listener_position (_listener source0))
            + 2 * (0 - e1 (Listener_position (_listener source0))))
           (e2 (Listener_position (_listener source0))
            + 2 * (4 - e2 (Listener_position (_listener source0)))) source0)
    = [setDistance (2 * d); setDirection az el] /\
    _directivity_gain
      (fst (setPosition globals
              (e0 (Listener_position (_listener source0))
               + 2 * (3 - e0 (Listener_position (_listener source0))))
              (e1 (Listener_position (_listener source0))
               + 2 * (0 - e1 (Listener_position (_listener source0))))
              (e2 (Listener_position (_listener source0))
               + 2 * (4 - e2 (Listener_position (_listener source0))))
              source0))
    = _directivity_gain (fst (setPosition globals 3 0 4 source0)).
Proof.
  apply (setPosition_scale globals 3 0 4 2 source0).
  - lra.
  - intros Heq. injection Heq as H3 _. lra.
Defined.

End ExactPosition.

(** ** Directivity, in the exact reading *)

Section ExactDirectivity.

Import Exact.

Local Open Scope R_scope.

(** [setDirectivity] keeps alpha in [[0, 1]], never stores an order above 1,
    and storing what it stored changes nothing (a clamped alpha and order
    are kept as they are). *)
Theorem setDirectivity_clamps (alpha order : R) (s : Source R) :
  0 <= _directivity_alpha (fst (setDirectivity alpha order s)) <= 1 /\
  _directivity_order (fst (setDirectivity alpha order s)) <= 1 /\
  fst (setDirectivity
         (_directivity_alpha (fst (setDirectivity alpha order s)))
         (_directivity_order (fst (setDirectivity alpha order s)))
         (fst (setDirectivity alpha order s)))
  = fst (setDirectivity alpha order s).
Proof.
  destruct (setDirectivity_exact alpha order s) as [Ha Ho].
  assert (Hidem : forall a o : R,
             Rmin 1 (Rmax 0 (Rmin 1 (Rmax 0 a))) = Rmin 1 (Rmax 0 a) /\
             Rmin 1 (Rmin 1 o) = Rmin 1 o).
  { intros a o. unfold Rmin, Rmax.
    repeat (destruct (Rle_dec _ _); try lra). }
  repeat split.
  - rewrite Ha. unfold Rmin, Rmax. repeat (destruct (Rle_dec _ _); try lra).
  - rewrite Ha. apply Rmin_l.
  - rewrite Ho. apply Rmin_l.
  - unfold setDirectivity. cbn [fst with_directivity _directivity_alpha
      _directivity_order _listener _position _velocity _orientation_q
      _forward input_gain _directivity_gain].
    change (@Math_min R RNumber) with Rmin.
    change (@Math_max R RNumber) with Rmax.
    change (@one R RNumber) with 1. change (@zero R RNumber) with 0.
    destruct (Hidem alpha order) as [Hia Hio]. rewrite Hia, Hio.
    reflexivity.
Qed.

(** Every order of the documented domain, 1 and above, is stored as 1: two
    such orders give the same source. *)
Theorem setDirectivity_orders_above_1 (alpha o1 o2 : R) (s : Source R) :
  1 <= o1 -> 1 <= o2 ->
  setDirectivity alpha o1 s = setDirectivity alpha o2 s /\
  _directivity_order (fst (setDirectivity alpha o1 s)) = 1.
Proof.
  intros H1 H2. unfold setDirectivity.
  change (@Math_min R RNumber) with Rmin. change (@one R RNumber) with 1.
  rewrite (Rmin_left 1 o1), (Rmin_left 1 o2) by lra.
  split; reflexivity.
Qed.

Lemma setDirectivity_orders_above_1_witness :
  setDirectivity (/ 2) 2 source0 = setDirectivity (/ 2) 7 source0 /\
  _directivity_order (fst (setDirectivity (/ 2) 2 source0)) = 1.
Proof.
  apply (setDirectivity_orders_above_1 (/ 2) 2 7 source0); lra.
Defined.

(** A power of a number of [[0, 1]] with a non-negative exponent stays in
    [[0, 1]]. *)
Lemma pow_unit_interval_nonneg (x y : R) :
  0 <= x <= 1 -> 0 <= y -> 0 <= pow x y <= 1.
Proof.
  intros [Hx0 Hx1] Hy. unfold pow.
  destruct (Req_dec_T y 0) as [Hy0 | _]; [lra |].
  destruct (Req_dec_T x 0) as [Hxz | Hxz]; [lra |].
  split.
  - left. apply exp_pos.
  - rewrite <- (Rpower_1_l y). apply Rle_Rpower_l; lra.
Qed.

(** The gain of [computeDirectivity] for a clamped alpha, a non-negative
    order and two unit vectors. *)
Lemma computeDirectivity_unit_interval
    (G : Globals R) (forward d : Vec3 R) (alpha order : R) :
  0 <= alpha <= 1 -> 0 <= order ->
  norm2 forward = 1 -> norm2 d = 1 ->
  0 <= computeDirectivity G forward d alpha order <= 1.
Proof.
  intros Ha Ho Hf Hd. rewrite computeDirectivity_exact.
  destruct (ltb alpha (EpsilonFloat G)); [lra |].
  apply pow_unit_interval_nonneg; [| exact Ho].
  pose proof (dot_unit_bound forward d Hf Hd) as Hcos.
  split; [apply Rabs_pos |].
  apply Rabs_le. split; nra.
Qed.

(** End to end: whatever alpha and whatever non-negative order are given to
    [setDirectivity], and whatever angles to [setOrientation], a following
    [setPosition] away from the listener writes a directivity gain in
    [[0, 1]]. *)
Theorem directivity_gain_in_unit_interval
    (G : Globals R) (alpha order roll pitch yaw x y z : R) (s : Source R) :
  0 <= order ->
  vec3 x y z <> Listener_position (_listener s) ->
  0 <= _directivity_gain
         (fst (setPosition G x y z
                 (fst (setOrientation roll pitch yaw
                         (fst (setDirectivity alpha order s))))))
    <= 1.
Proof.
  intros Ho Hne.
  set (s1 := fst (setDirectivity alpha order s)).
  set (s2 := fst (setOrientation roll pitch yaw s1)).
  assert (Hgain : _directivity_gain (fst (setPosition G x y z s2)) =
                  computeDirectivity G (_forward s2)
                    (snd (computeDirectionAndDistance (vec3 x y z)
                            (Listener_position (_listener s))))
                    (Rmin 1 (Rmax 0 alpha)) (Rmin 1 order)).
  { unfold setPosition.
    change (Listener_position (_listener s2))
      with (Listener_position (_listener s)).
    change (vec3 (Float32 x) (Float32 y) (Float32 z)) with (vec3 x y z).
    destruct (computeDirectionAndDistance (vec3 x y z)
                (Listener_position (_listener s))) as [d dx].
    destruct (computeAzimuthElevation G dx) as [az el]. reflexivity. }
  rewrite Hgain.
  apply computeDirectivity_unit_interval.
  - unfold Rmin, Rmax. repeat (destruct (Rle_dec _ _); try lra).
  - unfold Rmin. destruct (Rle_dec _ _); lra.
  - apply forward_norm2.
  - apply direction_norm2, Hne.
Qed.

Lemma directivity_gain_in_unit_interval_witness :
  0 <= _directivity_gain
         (fst (setPosition globals 3 0 4
                 (fst (setOrientation 1 2 3
                         (fst (setDirectivity (/ 2) 2 source0))))))
    <= 1.
Proof.
  apply (directivity_gain_in_unit_interval globals (/ 2) 2 1 2 3 3 0 4
           source0).
  - lra.
  - intros Heq. injection Heq as H3 _. lra.
Defined.

(** For a non-negative [EpsilonFloat], an alpha between it and 1/2, and
    the order 1 (which is
    what [setDirectivity] stores for every order from 1 up), the gain that
    [setPosition] writes away from the listener is the linear mix
    [(1 - alpha) + alpha * cosTheta] itself, the absolute value being idle,
    where [cosTheta] is taken between the forward vector and the unit vector
    from the listener to the source.  It lies between [1 - 2 alpha] and 1:
    it is 1 when forward points away from the listener, and [1 - 2 alpha]
    when it points at the listener. *)
Theorem setPosition_gain_linear_mix
    (G : Globals R) (x y z : R) (s : Source R) :
  0 <= EpsilonFloat G <= _directivity_alpha s ->
  _directivity_alpha s <= / 2 ->
  _directivity_order s = 1 ->
  norm2 (_forward s) = 1 ->
  vec3 x y z <> Listener_position (_listener s) ->
  _directivity_gain (fst (setPosition G x y z s))
  = (1 - _directivity_alpha s)
    + _directivity_alpha s
      * dot (_forward s)
            (snd (computeDirectionAndDistance (vec3 x y z)
                    (Listener_position (_listener s)))) /\
  1 - 2 * _directivity_alpha s
    <= _directivity_gain (fst (setPosition G x y z s)) <= 1.
Proof.
  intros [He0 He] Ha Ho Hf Hne.
  assert (Hgain : _directivity_gain (fst (setPosition G x y z s)) =
                  computeDirectivity G (_forward s)
                    (snd (computeDirectionAndDistance (vec3 x y z)
                            (Listener_position (_listener s))))
                    (_directivity_alpha s) (_directivity_order s))
    by reflexivity.
  pose proof (dot_unit_bound _ _ Hf (direction_norm2 _ _ Hne)) as Hcos.
  set (dx := snd (computeDirectionAndDistance (vec3 x y z)
                    (Listener_position (_listener s)))) in *.
  set (alpha := _directivity_alpha s) in *.
  assert (Hlo : 0 <= alpha * (dot (_forward s) dx + 1))
    by (apply Rmult_le_pos; lra).
  assert (Hhi : 0 <= alpha * (1 - dot (_forward s) dx))
    by (apply Rmult_le_pos; lra).
  assert (Hmix : 0 <= 1 - alpha + alpha * dot (_forward s) dx) by lra.
  rewrite Hgain, Ho, computeDirectivity_exact, ltb_false by exact He.
  rewrite pow_1_r by apply Rabs_pos.
  rewrite Rabs_pos_eq by exact Hmix.
  split; [reflexivity |]. lra.
Qed.

Lemma setPosition_gain_linear_mix_witness :
  _directivity_gain (fst (setPosition globals 3 0 4 cardioid_source))
  = (1 - _directivity_alpha cardioid_source)
    + _directivity_alpha cardioid_source
      * dot (_forward cardioid_source)
            (snd (computeDirectionAndDistance (vec3 3 0 4)
                    (Listener_position (_listener cardioid_source)))) /\
  1 - 2 * _directivity_alpha cardioid_source
    <= _directivity_gain (fst (setPosition globals 3 0 4 cardioid_source))
    <= 1.
Proof.
  apply (setPosition_gain_linear_mix globals 3 0 4 cardioid_source).
  - cbn. lra.
  - cbn. lra.
  - reflexivity.
  - unfold norm2. cbn. lra.
  - intros Heq. injection Heq as H3 _. lra.
Defined.

(** A new source has a unit orientation quaternion and a unit forward
    vector, whatever the options. *)
Theorem Source_new_orientation_unit
    (G : Globals R) (listener : Listener R) (options : option (Options R)) :
  qnorm2 (_orientation_q (fst (Source_new G listener options))) = 1 /\
  norm2 (_forward (fst (Source_new G listener options))) = 1.
Proof.
  unfold Source_new.
  destruct (setPosition _ _ _ _ _) as [s1 c1].
  cbn [setVelocity].
  match goal with
  | |- context [setOrientation ?r ?p ?y ?s] =>
      pose proof (forward_norm2 r p y s) as Hf;
      pose proof (toQuaternion_qnorm2 r p y) as Hq
  end.
  split; [exact Hq | exact Hf].
Qed.

End ExactDirectivity.

(** ** More properties that hold for every reading of the numbers *)

Section AnyNumberMore.

Context {N : Type} `{Number N}.

Variable G : Globals N.

Local Open Scope js_scope.

(** The gain that [setPosition] writes. *)
Lemma setPosition_directivity_gain (x y z : N) (s : Source N) :
  _directivity_gain (fst (setPosition G x y z s)) =
  computeDirectivity G (_forward s)
    (snd (computeDirectionAndDistance
            (vec3 (Float32 x) (Float32 y) (Float32 z))
            (Listener_position (_listener s))))
    (_directivity_alpha s) (_directivity_order s).
Proof. reflexivity. Qed.

(** While alpha is below [EpsilonFloat] (as the constructor's alpha 0 is for
    a positive threshold), [setPosition] and [setAngleFromListener] write
    the directivity gain 1, whatever the position, the forward vector and
    the order. *)
Theorem directivity_gain_omnidirectional
    (x y z azimuth : N) (elevation distance : option N) (s : Source N) :
  (_directivity_alpha s <? EpsilonFloat G) = true ->
  _directivity_gain (fst (setPosition G x y z s)) = one /\
  _directivity_gain
    (fst (setAngleFromListener G azimuth elevation distance s)) = one.
Proof.
  intros Hlt. split.
  - rewrite setPosition_directivity_gain. unfold computeDirectivity.
    rewrite Hlt. reflexivity.
  - unfold setAngleFromListener.
    cbn [fst _directivity_gain with_position with_directivity_gain].
    unfold computeDirectivity. rewrite Hlt. reflexivity.
Qed.

(** [setOrientation], [setDirectivity] and [setVelocity] do not recompute
    the directivity gain and call no collaborator: after a [setPosition],
    the gain and the position stay what that call made them, although the
    forward vector, alpha and the order it was computed from are replaced. *)
Theorem directivity_gain_not_recomputed
    (x y z roll pitch yaw alpha order vx vy vz : N) (s : Source N) :
  _directivity_gain
    (fst (setVelocity vx vy vz
            (fst (setDirectivity alpha order
                    (fst (setOrientation roll pitch yaw
                            (fst (setPosition G x y z s))))))))
  = _directivity_gain (fst (setPosition G x y z s)) /\
  _position
    (fst (setVelocity vx vy vz
            (fst (setDirectivity alpha order
                    (fst (setOrientation roll pitch yaw
                            (fst (setPosition G x y z s))))))))
  = _position (fst (setPosition G x y z s)) /\
  snd (setOrientation roll pitch yaw (fst (setPosition G x y z s))) = [] /\
  snd (setDirectivity alpha order s) = [] /\
  snd (setVelocity vx vy vz s) = [].
Proof. repeat split. Qed.


(** The constructor.  Whatever the options, a new source has alpha 0, the
    listener's ambisonic order as its order, a zero velocity (the velocity
    option is dropped), the position option (or the default) as its
    position, the gain option (or the default) as its input gain, and its
    calls are the two of its [setPosition]. *)
Theorem Source_new_state
    (listener : Listener N) (options : option (Options N)) :
  _listener (fst (Source_new G listener options)) = listener /\
  _directivity_alpha (fst (Source_new G listener options)) = zero /\
  _directivity_order (fst (Source_new G listener options))
    = Listener_ambisonicOrder listener /\
  _velocity (fst (Source_new G listener options)) = Float32Array3 /\
  _position (fst (Source_new G listener options))
    = vec3 (Float32 (e0 (option_position G options)))
           (Float32 (e1 (option_position G options)))
           (Float32 (e2 (option_position G options))) /\
  input_gain (fst (Source_new G listener options))
    = match options with
      | Some {| gain := Some g |} => g
      | _ => DefaultGainLinear G
      end /\
  exists d az el,
    snd (Source_new G listener options)
    = [setDistance d; setDirection az el].
Proof.
  destruct options as [[mind maxd [g |] pos vel ori] |];
    unfold option_position; cbn [position gain]; repeat split;
    try (eexists _, _, _; reflexivity).
Qed.

End AnyNumberMore.

(** ** More properties in the binary64 reading *)

Section Binary64More.

Import Binary64.

Context {M : MathLib}.

Local Open Scope float_scope.

(** [Math.max(0, a)] is NaN for a NaN, and otherwise [+0] or [a] itself,
    the latter only when [a] is not below 0. *)
Lemma fmax_0_cases (a : float) :
  (is_nan a = true /\ fmax 0 a = nan) \/
  (is_nan a = false /\
   (fmax 0 a = 0 \/ (fmax 0 a = a /\ (a <? 0) = false))).
Proof.
  unfold fmax. change (is_nan 0) with false. cbn [orb].
  destruct (is_nan a);
    [left; split; reflexivity | right; split; [reflexivity |]].
  destruct (a <? 0) eqn:Hlt; [left; reflexivity |].
  destruct (0 <? a); [right; split; reflexivity | left; reflexivity].
Qed.

(** [Math.min(1, m)] is NaN for a NaN, and otherwise 1 or [m] itself, the
    latter only when [m] is not above 1. *)
Lemma fmin_1_cases (m : float) :
  (is_nan m = true /\ fmin 1 m = nan) \/
  (is_nan m = false /\
   (fmin 1 m = 1 \/ (fmin 1 m = m /\ (1 <? m) = false))).
Proof.
  unfold fmin. change (is_nan 1) with false. cbn [orb].
  destruct (is_nan m);
    [left; split; reflexivity | right; split; [reflexivity |]].
  destruct (1 <? m) eqn:Hlt; [left; reflexivity |].
  right. split; [| reflexivity].
  destruct (m <? 1); reflexivity.
Qed.

(** In binary64 [setDirectivity] never stores an alpha below 0 or above 1,
    nor an order above 1; and it does not reject or replace NaN: what it
    stores is NaN exactly when the argument is. *)
Theorem setDirectivity_binary64_clamps (alpha order : float)
    (s : Source float) :
  (_directivity_alpha (fst (setDirectivity alpha order s)) <? 0) = false /\
  (1 <? _directivity_alpha (fst (setDirectivity alpha order s))) = false /\
  is_nan (_directivity_alpha (fst (setDirectivity alpha order s)))
    = is_nan alpha /\
  (1 <? _directivity_order (fst (setDirectivity alpha order s))) = false /\
  is_nan (_directivity_order (fst (setDirectivity alpha order s)))
    = is_nan order.
Proof.
  unfold setDirectivity.
  cbn [fst _directivity_alpha _directivity_order with_directivity].
  change (@Math_min float FloatNumber) with fmin.
  change (@Math_max float FloatNumber) with fmax.
  change (@one float FloatNumber) with 1.
  change (@zero float FloatNumber) with 0.
  assert (Horder : (1 <? fmin 1 order) = false /\
                   is_nan (fmin 1 order) = is_nan order).
  { destruct (fmin_1_cases order) as [[Hn Hr] | [Hn [Hr | [Hr Hle]]]];
      rewrite Hr, ?Hn; auto. }
  destruct Horder as [Ho1 Ho2].
  destruct (fmax_0_cases alpha) as [[Hn Hm] | [Hn Hm]].
  - rewrite Hm, Hn. repeat split; auto.
  - destruct (fmin_1_cases (fmax 0 alpha))
      as [[Hn' Hr] | [Hn' [Hr | [Hr Hle]]]].
    + destruct Hm as [Hm | [Hm _]]; rewrite Hm in Hn'; [discriminate |].
      congruence.
    + rewrite Hr, Hn. repeat split; auto.
    + rewrite Hr. destruct Hm as [Hm | [Hm Hge]]; rewrite Hm in *;
        rewrite ?Hn; repeat split; auto.
Qed.

(** The constructor, given the position the listener is at (or given no
    position when the default is where the listener is), already hands NaN
    angles to the encoder and a distance that is [+0] or NaN to the
    attenuation. *)
Theorem Source_new_at_listener_passes_nan
    (G : Globals float) (order : float)
    (options : option (Options float)) :
  exists d,
    snd (Source_new G
           (listener_at (e0 (option_position G options))
              (e1 (option_position G options))
              (e2 (option_position G options)) order)
           options)
    = [setDistance d; setDirection nan nan] /\
    (d = 0 \/ d = nan).
Proof.
  assert (Hpos : forall p : Vec3 float,
            exists d,
              snd (setPosition G (e0 p) (e1 p) (e2 p)
                     {| _listener := listener_at (e0 p) (e1 p) (e2 p) order;
                        _position := Float32Array3;
                        _velocity := Float32Array3;
                        _orientation_q := Float32Array4;
                        _forward := Float32Array3;
                        _directivity_alpha := zero;
                        _directivity_order := order;
                        input_gain := one;
                        _directivity_gain := one |})
              = [setDistance d; setDirection nan nan] /\
              (d = 0 \/ d = nan)).
  { intros p. unfold setPosition.
    cbn [_listener Listener_position listener_at].
    change (@Float32 float FloatNumber) with fround.
    destruct (computeDirectionAndDistance_diag
                (vec3 (fround (e0 p)) (fround (e1 p)) (fround (e2 p))))
      as (d & Hd & Heq).
    rewrite Heq, computeAzimuthElevation_nan.
    exists d. split; [reflexivity | exact Hd]. }
  destruct (Hpos (option_position G options)) as (d & Hcalls & Hd).
  exists d. split; [| exact Hd].
  rewrite <- Hcalls.
  destruct options as [[mind maxd g [pos |] vel ori] |];
    unfold Source_new, option_position; cbn [position];
    cbn [Listener_ambisonicOrder listener_at];
    match goal with
    | |- context [setPosition ?G ?x ?y ?z ?s] =>
        destruct (setPosition G x y z s) as [s1 c1]
    end;
    cbn [setVelocity setOrientation snd]; rewrite !app_nil_r; reflexivity.
Qed.

(** NaN absorbs every arithmetic operation, on either side. *)
Lemma nan_absorbs (k : float) :
  k * nan = nan /\ nan + k = nan /\ k + nan = nan /\
  nan - k = nan /\ k - nan = nan /\ nan / k = nan /\ k / nan = nan.
Proof.
  repeat split; apply Prim2SF_inj;
    rewrite ?mul_spec, ?add_spec, ?sub_spec, ?div_spec;
    change (Prim2SF nan) with S754_nan;
    destruct (Prim2SF k) as [[|] | [|] | | [|] m e]; reflexivity.
Qed.

Ltac nan_absorb :=
  repeat first
    [ rewrite mul_nan_l
    | rewrite (proj1 (nan_absorbs _))
    | rewrite (proj1 (proj2 (nan_absorbs _)))
    | rewrite (proj1 (proj2 (proj2 (nan_absorbs _))))
    | rewrite (proj1 (proj2 (proj2 (proj2 (nan_absorbs _)))))
    | rewrite (proj1 (proj2 (proj2 (proj2 (proj2 (nan_absorbs _))))))
    | rewrite (proj1 (proj2 (proj2 (proj2 (proj2 (proj2 (nan_absorbs _)))))))
    | rewrite (proj2 (proj2 (proj2 (proj2 (proj2 (proj2 (nan_absorbs _)))))))
    | progress change (fround nan) with nan
    | progress change (PrimFloat.sqrt nan) with nan
    | progress change (- nan) with nan
    | progress change (fsin nan) with nan
    | progress change (fcos nan) with nan ].

(** [setPosition] does not validate its arguments: a NaN coordinate makes
    the distance and both angles NaN, wherever the listener is. *)
Theorem setPosition_nan_coordinate
    (G : Globals float) (x y z : float) (s : Source float) :
  snd (setPosition G nan y z s) = [setDistance nan; setDirection nan nan] /\
  snd (setPosition G x nan z s) = [setDistance nan; setDirection nan nan] /\
  snd (setPosition G x y nan s) = [setDistance nan; setDirection nan nan].
Proof.
  assert (Hdir : forall p l : Vec3 float,
            e0 p = nan \/ e1 p = nan \/ e2 p = nan ->
            computeDirectionAndDistance p l = (nan, vec3 nan nan nan)).
  { intros [a b c] [la lb lc] Hnan. unfold computeDirectionAndDistance.
    cbn [e0 e1 e2 Float32 sub mul add div Math_sqrt FloatNumber] in *.
    destruct Hnan as [Hn | [Hn | Hn]]; subst; nan_absorb; reflexivity. }
  unfold setPosition. change (@Float32 float FloatNumber) with fround.
  change (fround nan) with nan.
  rewrite !Hdir by (cbn [e0 e1 e2]; auto).
  rewrite computeAzimuthElevation_nan. repeat split.
Qed.

(** [setOrientation] does not validate its arguments either: a NaN angle
    makes every element of the stored quaternion and of the forward vector
    NaN. *)
Theorem setOrientation_nan_angle (a b : float) (s : Source float) :
  (_orientation_q (fst (setOrientation nan a b s)) = quat nan nan nan nan /\
   _forward (fst (setOrientation nan a b s)) = vec3 nan nan nan) /\
  (_orientation_q (fst (setOrientation a nan b s)) = quat nan nan nan nan /\
   _forward (fst (setOrientation a nan b s)) = vec3 nan nan nan) /\
  (_orientation_q (fst (setOrientation a b nan s)) = quat nan nan nan nan /\
   _forward (fst (setOrientation a b nan s)) = vec3 nan nan nan).
Proof.
  assert (Hq : toQuaternion nan a b = quat nan nan nan nan /\
               toQuaternion a nan b = quat nan nan nan nan /\
               toQuaternion a b nan = quat nan nan nan nan).
  { unfold toQuaternion.
    cbn [mul add sub half Math_sin Math_cos FloatNumber].
    change (nan * 0.5) with nan. nan_absorb. repeat split. }
  destruct Hq as (Hr & Hp & Hy).
  unfold setOrientation.
  cbn [fst _orientation_q _forward with_orientation].
  rewrite Hr, Hp, Hy. repeat split.
Qed.

End Binary64More.

(** ** The angles of a direction, in the exact reading *)

Section ExactAngles.

Import Exact.

Local Open Scope R_scope.




(** Witness of [directivity_gain_omnidirectional]: the default source,
    whose alpha is 0. *)
Lemma directivity_gain_omnidirectional_witness :
  _directivity_gain (fst (setPosition globals 3 0 4 source0)) = 1 /\
  _directivity_gain
    (fst (setAngleFromListener globals 90 None None source0)) = 1.
Proof.
  refine (directivity_gain_omnidirectional
            globals 3 0 4 90 None None source0 _).
  apply ltb_true. cbn. lra.
Defined.

End ExactAngles.
